(** * wotmap: the map annotation tool [tools/overlap.py]

    A shallow embedding of the annotation pipeline and the properties of
    its border colour parser, spline interpolator, icon and label
    placement, border compositing and tile export.

    Python values are modelled as follows.
    - [int] is [Z]; [float] is Rocq's primitive binary64 [float], whose
      operations are the IEEE 754 ones Python uses.
    - [str] is [string], read as a sequence of code points below 256.
    - An exception is the [Err] case of [result].
    - Pillow (the imaging library) is outside the repository: its pixel
      arithmetic is modelled in [Module Pillow], its rasterisers (lines,
      text, resampling, font metrics) are the fields of [Pillow.Raster]. *)

From Stdlib Require Import ZArith List String Ascii Bool Lia Floats Uint63.
From Stdlib Require Import DecimalString DecimalN.
Import ListNotations.

Open Scope string_scope.
Open Scope list_scope.
Open Scope Z_scope.

(** ** Python runtime *)

Module Py.

Inductive exn : Type :=
| ValueError
| OverflowError
| ZeroDivisionError
| KeyError
| IndexError.

Inductive result (A : Type) : Type :=
| Ok (a : A)
| Err (e : exn).

Arguments Ok {A} a.
Arguments Err {A} e.

Definition bind {A B : Type} (r : result A) (k : A -> result B) : result B :=
  match r with
  | Ok a => k a
  | Err e => Err e
  end.

(** [for x in xs: acc = body(acc, x)], stopping at the first exception. *)
Fixpoint for_each {A S : Type} (xs : list A) (body : S -> A -> result S) (acc : S)
  : result S :=
  match xs with
  | [] => Ok acc
  | x :: xs' => bind (body acc x) (for_each xs' body)
  end.

(** [range(lo, hi)] *)
Definition range (lo hi : Z) : list Z :=
  map (fun k => lo + Z.of_nat k) (seq 0 (Z.to_nat (hi - lo))).

Definition len {A : Type} (l : list A) : Z := Z.of_nat (List.length l).

(** [l[i]], with Python's negative indices. *)
Definition index {A : Type} (l : list A) (i : Z) : result A :=
  let j := if i <? 0 then len l + i else i in
  if j <? 0 then Err IndexError
  else match nth_error l (Z.to_nat j) with
       | Some a => Ok a
       | None => Err IndexError
       end.

(** *** float *)

(** [float(z)] for an [int] [z]: the nearest binary64, ties to even. *)
Definition float_of_Z (z : Z) : float :=
  SF2Prim (binary_normalize prec emax z 0 false).

Definition is_finite (f : float) : bool :=
  match Prim2SF f with
  | S754_zero _ | S754_finite _ _ _ => true
  | _ => false
  end.

(** [float(z)] raises [OverflowError] when [z] is beyond the binary64 range. *)
Definition float_of_int (z : Z) : result float :=
  let f := float_of_Z z in
  if is_finite f then Ok f else Err OverflowError.

(** [m / 2^k] rounded to the nearest integer, ties to even ([m >= 0], [k > 0]). *)
Definition round_half_even_shift (m k : Z) : Z :=
  let q := Z.shiftr m k in
  let r := Z.land m (Z.ones k) in
  let h := Z.shiftl 1 (k - 1) in
  if r <? h then q
  else if h <? r then q + 1
  else if Z.even q then q else q + 1.

(** [round(f)] with one argument: an [int], ties to even. *)
Definition round (f : float) : result Z :=
  match Prim2SF f with
  | S754_zero _ => Ok 0
  | S754_finite s m e =>
      let v := if 0 <=? e then Z.shiftl (Z.pos m) e
               else round_half_even_shift (Z.pos m) (- e) in
      Ok (if s then - v else v)
  | S754_infinity _ => Err OverflowError
  | S754_nan => Err ValueError
  end.

(** [int(f)]: truncation towards zero. *)
Definition int_of_float (f : float) : result Z :=
  match Prim2SF f with
  | S754_zero _ => Ok 0
  | S754_finite s m e =>
      let v := Z.shiftl (Z.pos m) e in
      Ok (if s then - v else v)
  | S754_infinity _ => Err OverflowError
  | S754_nan => Err ValueError
  end.

(** [a / b] on two [int]s: the correctly rounded quotient.  Both operands
    of every such division in the tool are sizes in pixels, far below
    [2^53], where it is the binary64 division of the converted operands. *)
Definition int_truediv (a b : Z) : result float :=
  if b =? 0 then Err ZeroDivisionError
  else bind (float_of_int a) (fun fa =>
       bind (float_of_int b) (fun fb => Ok (fa / fb)%float)).

(** [math.ceil(a / b)] on two [int]s: the quotients the tool takes are of
    pixel sizes below [2^53], where rounding the quotient to binary64
    cannot cross an integer, so the result is the integer ceiling. *)
Definition ceil_div (a b : Z) : result Z :=
  if b =? 0 then Err ZeroDivisionError else Ok (- ((- a) / b)).

(** *** str *)

Definition code (c : ascii) : Z := Z.of_N (N_of_ascii c).

(** [str.isspace] on one code point below 256; also the class [\s]. *)
Definition is_space (c : ascii) : bool :=
  let n := code c in
  ((9 <=? n) && (n <=? 13)) || ((28 <=? n) && (n <=? 32))
  || (n =? 133) || (n =? 160).

(** A decimal digit below code point 256; also the class [\d]. *)
Definition is_digit (c : ascii) : bool :=
  let n := code c in (48 <=? n) && (n <=? 57).

Definition digit_value (c : ascii) : Z := code c - 48.

(** [str.lower] on one code point below 256. *)
Definition lower_char (c : ascii) : ascii :=
  let n := code c in
  if ((65 <=? n) && (n <=? 90))
     || ((192 <=? n) && (n <=? 222) && negb (n =? 215))
  then ascii_of_N (Z.to_N (n + 32)) else c.

Definition lower (s : string) : string :=
  string_of_list_ascii (map lower_char (list_ascii_of_string s)).

Fixpoint lstrip (s : list ascii) : list ascii :=
  match s with
  | c :: s' => if is_space c then lstrip s' else s
  | [] => []
  end.

Definition strip (s : list ascii) : list ascii :=
  rev (lstrip (rev (lstrip s))).

(** The digits of an integer literal, with single underscores allowed
    between digits. *)
Fixpoint digits_value (acc : Z) (after_digit : bool) (s : list ascii) : option Z :=
  match s with
  | [] => if after_digit then Some acc else None
  | c :: s' =>
      if is_digit c then digits_value (10 * acc + digit_value c) true s'
      else if Ascii.eqb c "_"
           then (if after_digit then digits_value acc false s' else None)
           else None
  end.

(** [int(s)] for a [str] in base 10.  CPython's configurable limit on the
    number of digits is not modelled. *)
Definition int_of_str (s : list ascii) : result Z :=
  let body := strip s in
  let parsed :=
    match body with
    | c :: ds =>
        if Ascii.eqb c "+" then digits_value 0 false ds
        else if Ascii.eqb c "-" then option_map Z.opp (digits_value 0 false ds)
        else digits_value 0 false body
    | [] => None
    end in
  match parsed with
  | Some z => Ok z
  | None => Err ValueError
  end.

(** [str(n)] for an [int] [n >= 0]. *)
Definition str_of_nonneg (n : Z) : string :=
  NilZero.string_of_uint (N.to_uint (Z.to_N n)).

(** [format(n, "02d")] for [n >= 0]: at least two digits, zero-padded. *)
Definition format_02d (n : Z) : string :=
  let s := str_of_nonneg n in
  if (String.length s <? 2)%nat then ("0" ++ s)%string else s.

(** [os.path.join(a, b)] on a POSIX system. *)
Definition path_join (a b : string) : string :=
  match b with
  | String "/" _ => b
  | _ =>
      match rev (list_ascii_of_string a) with
      | [] => b
      | "/"%char :: _ => (a ++ b)%string
      | _ => (a ++ "/" ++ b)%string
      end
  end.

End Py.

(** ** The regular expressions of [re], as far as the tool uses them *)

Module Re.

(** One character: a literal (compared case-insensitively, as under
    [re.I]), [\s] or [\d]. *)
Inductive atom : Type :=
| Chr (c : ascii)
| Space
| Digit.

(** [One a] is [a], [Star a] is [a*], [Group a] is the capturing group
    [(a+)], [Eol] is [$]. *)
Inductive item : Type :=
| One (a : atom)
| Star (a : atom)
| Group (a : atom)
| Eol.

Definition test (a : atom) (c : ascii) : bool :=
  match a with
  | Chr l => Ascii.eqb (Py.lower_char c) (Py.lower_char l)
  | Space => Py.is_space c
  | Digit => Py.is_digit c
  end.

(** What follows a run of [a+] that consumed [acc] (latest first). *)
Definition close_group (acc : list ascii) (rest : option (list (list ascii)))
  : option (list (list ascii)) :=
  match acc with
  | [] => None
  | _ => option_map (cons (rev acc)) rest
  end.

(** [a*] followed by [kont]: as many characters as possible, giving one
    back at a time while [kont] fails. *)
Fixpoint star (a : atom) (kont : list ascii -> option (list (list ascii)))
  (s : list ascii) : option (list (list ascii)) :=
  match s with
  | c :: s' =>
      if test a c
      then match star a kont s' with
           | Some r => Some r
           | None => kont s
           end
      else kont s
  | [] => kont []
  end.

(** [(a+)] followed by [kont], with [acc] consumed so far. *)
Fixpoint plus (a : atom) (kont : list ascii -> option (list (list ascii)))
  (acc s : list ascii) : option (list (list ascii)) :=
  match s with
  | c :: s' =>
      if test a c
      then match plus a kont (c :: acc) s' with
           | Some r => Some r
           | None => close_group acc (kont s)
           end
      else close_group acc (kont s)
  | [] => close_group acc (kont [])
  end.

(** [re.match(p, s)]: the backtracking matcher, anchored at the start of
    [s]; repetitions are greedy.  The result is [m.groups()]. *)
Fixpoint run (p : list item) (s : list ascii) {struct p}
  : option (list (list ascii)) :=
  match p with
  | [] => Some []
  | One a :: k =>
      match s with
      | c :: s' => if test a c then run k s' else None
      | [] => None
      end
  | Star a :: k => star a (run k) s
  | Group a :: k => plus a (run k) [] s
  | Eol :: k =>
      match s with
      | [] => run k s
      | [c] => if Ascii.eqb c "010" then run k s else None
      | _ => None
      end
  end.

End Re.

Notation "x <- r ;; k" := (Py.bind r (fun x => k))
  (at level 61, r at next level, right associativity).
Notation "' p <- r ;; k" := (Py.bind r (fun p => k))
  (at level 61, p pattern, r at next level, right associativity).

(** ** Pillow *)

Module Pillow.

Definition rgba : Type := (Z * Z * Z * Z)%type.
Definition rgb : Type := (Z * Z * Z)%type.

(** An image: its mode, its size and its pixels.  Only the pixels at
    [0 <= x < width], [0 <= y < height] are part of the picture. *)
Record Image : Type := {
  mode : string;
  width : Z;
  height : Z;
  getpixel : Z -> Z -> rgba
}.

Definition size (im : Image) : Z * Z := (width im, height im).

Definition inside (im : Image) (x y : Z) : bool :=
  (0 <=? x) && (x <? width im) && (0 <=? y) && (y <? height im).

Record Font : Type := {
  font_path : string;
  font_size : Z
}.

(** The rasterisers and metrics of the library, which the tool only
    calls: the pixels painted by [ImageDraw.line] and [ImageDraw.text],
    the pixels of a Lanczos resampling, the per-pixel mode conversion,
    and [FreeTypeFont.getbbox]. *)
Record Raster : Type := {
  line_px : Image -> list (float * float) -> rgba -> Z -> Z -> Z -> rgba;
  text_px : Image -> Z * Z -> string -> Font -> rgb -> Z -> rgb -> Z -> Z -> rgba;
  lanczos_px : Image -> Z * Z -> Z -> Z -> rgba;
  convert_px : string -> string -> rgba -> rgba;
  getbbox : Font -> string -> Z -> Z * Z * Z * Z
}.

Section WithRaster.

Variable R : Raster.

(** [Image.new(mode, size, color)] *)
Definition new (m : string) (sz : Z * Z) (c : rgba) : Image :=
  {| mode := m; width := fst sz; height := snd sz; getpixel := fun _ _ => c |}.

(** [im.convert(m)] *)
Definition convert (im : Image) (m : string) : Image :=
  {| mode := m; width := width im; height := height im;
     getpixel := fun x y => convert_px R (mode im) m (getpixel im x y) |}.

(** [im.resize(size, Image.Resampling.LANCZOS)] *)
Definition resize_lanczos (im : Image) (sz : Z * Z) : Image :=
  {| mode := mode im; width := fst sz; height := snd sz;
     getpixel := lanczos_px R im sz |}.

(** [im.crop((left, upper, right, lower))]; outside the image the crop is
    transparent black. *)
Definition crop (im : Image) (box : Z * Z * Z * Z) : Image :=
  let '(x0, y0, x1, y1) := box in
  {| mode := mode im; width := x1 - x0; height := y1 - y0;
     getpixel := fun x y =>
       if inside im (x0 + x) (y0 + y)
       then getpixel im (x0 + x) (y0 + y) else (0, 0, 0, 0) |}.

Definition shift_for_div255 (a : Z) : Z := Z.shiftr (Z.shiftr a 8 + a) 8.

(** Modelled from the spec: Pillow's compositing of one source pixel over
    one destination pixel (library code, not part of the repository).  The
    spec asks for the standard "over" operator, under which a destination
    pixel below a fully transparent source pixel stays as it is; the
    integer arithmetic is the library's. *)
Definition over (dst src : rgba) : rgba :=
  let '(dr, dg, db, da) := dst in
  let '(sr, sg, sb, sa) := src in
  if sa =? 0 then dst
  else
    let blend := da * (255 - sa) in
    let outa255 := sa * 255 + blend in
    let coef1 := sa * 255 * 255 * 128 / outa255 in
    let coef2 := 255 * 128 - coef1 in
    let chan s d := Z.shiftr (shift_for_div255 (s * coef1 + d * coef2 + Z.shiftl 128 7)) 7 in
    (chan sr dr, chan sg dg, chan sb db, shift_for_div255 (outa255 + 128)).

(** Modelled from the spec: [im.alpha_composite(src, dest)], in place: the
    source is composited over the destination with its top-left corner
    at [dest]; every other pixel is left as it is. *)
Definition alpha_composite (im src : Image) (dest : Z * Z) : Image :=
  let '(dx, dy) := dest in
  {| mode := mode im; width := width im; height := height im;
     getpixel := fun x y =>
       if inside src (x - dx) (y - dy)
       then over (getpixel im x y) (getpixel src (x - dx) (y - dy))
       else getpixel im x y |}.

(** [ImageDraw.Draw(im).line(xy, fill, width, joint="curve")], in place. *)
Definition draw_line (im : Image) (xy : list (float * float)) (fill : rgba) (w : Z)
  : Image :=
  {| mode := mode im; width := width im; height := height im;
     getpixel := line_px R im xy fill w |}.

(** [draw.textbbox(xy, text, font, stroke_width)]: the box of the text as
    drawn at [xy], which is the font's box moved by [xy]. *)
Definition textbbox (xy : Z * Z) (text : string) (f : Font) (stroke_width : Z)
  : Z * Z * Z * Z :=
  let '(l, t, r, b) := getbbox R f text stroke_width in
  (l + fst xy, t + snd xy, r + fst xy, b + snd xy).

(** [draw.text(xy, text, font, fill, stroke_width, stroke_fill)], in place. *)
Definition draw_text (im : Image) (xy : Z * Z) (text : string) (f : Font)
  (fill : rgb) (stroke_width : Z) (stroke_fill : rgb) : Image :=
  {| mode := mode im; width := width im; height := height im;
     getpixel := text_px R im xy text f fill stroke_width stroke_fill |}.

End WithRaster.

End Pillow.

(** ** [tools/overlap.py] *)

Module Overlap.

Import Py Pillow.

Definition point : Type := (float * float)%type.

(** *** Helpers *)

Definition pt_to_px (points dpi : float) : result Z :=
  round (points * dpi / 72)%float.

(** [^rgb\(\s*(\d+)\s*,\s*(\d+)\s*,\s*(\d+)\)$]; [re.match] anchors the
    pattern at the start of the string, which is all the leading [^] asks. *)
Definition rgb_pattern : list Re.item :=
  [Re.One (Re.Chr "r"); Re.One (Re.Chr "g"); Re.One (Re.Chr "b");
   Re.One (Re.Chr "(");
   Re.Star Re.Space; Re.Group Re.Digit; Re.Star Re.Space; Re.One (Re.Chr ",");
   Re.Star Re.Space; Re.Group Re.Digit; Re.Star Re.Space; Re.One (Re.Chr ",");
   Re.Star Re.Space; Re.Group Re.Digit; Re.One (Re.Chr ")");
   Re.Eol].

Definition parse_rgba_force_70a (rgba_str : string) : result rgba :=
  match Re.run rgb_pattern (list_ascii_of_string rgba_str) with
  | None =>
      a <- int_of_float (0.75 * 255)%float;;
      Ok (255, 0, 0, a)%Z
  | Some [r; g; b] =>
      r' <- int_of_str r;;
      g' <- int_of_str g;;
      b' <- int_of_str b;;
      a <- int_of_float (0.75 * 255)%float;;
      Ok (r', g', b', a)
  | Some _ => Err ValueError
  end.

(** One sample of the curve through [p1] and [p2] at parameter [t]. *)
Definition spline_sample (p0 p1 p2 p3 : point) (t : float) : point :=
  let t2 := (t * t)%float in
  let t3 := (t2 * t)%float in
  let x := (0.5 * (2 * fst p1 + (- fst p0 + fst p2) * t
                   + (2 * fst p0 - 5 * fst p1 + 4 * fst p2 - fst p3) * t2
                   + (- fst p0 + 3 * fst p1 - 3 * fst p2 + fst p3) * t3))%float in
  let y := (0.5 * (2 * snd p1 + (- snd p0 + snd p2) * t
                   + (2 * snd p0 - 5 * snd p1 + 4 * snd p2 - snd p3) * t2
                   + (- snd p0 + 3 * snd p1 - 3 * snd p2 + snd p3) * t3))%float in
  (x, y).

Definition catmull_rom_spline (points : list point) (samples_per_seg : Z)
  (closed : bool) : result (list point) :=
  if (len points <? 2)%Z then Ok points
  else
    pts <- (if closed
            then
              pl <- index points (-1);;
              pa <- index points 0;;
              pb <- index points 1;;
              Ok ([pl] ++ points ++ [pa; pb])
            else
              pa <- index points 0;;
              pl <- index points (-1);;
              Ok ([pa] ++ points ++ [pl]));;
    out <- for_each (range 1 (len pts - 2))
             (fun out i =>
                p0 <- index pts (i - 1);;
                p1 <- index pts i;;
                p2 <- index pts (i + 1);;
                p3 <- index pts (i + 2);;
                for_each (range 0 samples_per_seg)
                  (fun out j =>
                     fs <- float_of_int samples_per_seg;;
                     fj <- float_of_int j;;
                     Ok (out ++ [spline_sample p0 p1 p2 p3 (fj / fs)%float]))
                  out)
             [];;
    pl <- index points (-1);;
    Ok (out ++ [pl]).

Section WithRaster.

Variable R : Raster.

Definition alpha_composite_center (base_rgba icon_rgba : Image) (center_xy : point)
  : result Image :=
  let '(x, y) := center_xy in
  let '(w, h) := size icon_rgba in
  hw <- int_truediv w 2;;
  tlx <- round (x - hw)%float;;
  hh <- int_truediv h 2;;
  tly <- round (y - hh)%float;;
  Ok (alpha_composite base_rgba icon_rgba (tlx, tly)).

Definition ensure_rgba (im : Image) : Image :=
  if String.eqb (mode im) "RGBA" then im else convert R im "RGBA".

(** What [im.save] is asked to write. *)
Inductive encoding : Type :=
| PNG
| JPEG (quality subsampling : Z) (optimize : bool).

Record SavedFile : Type := {
  path : string;
  enc : encoding;
  content : Image
}.

Definition save_image (im : Image) (out_path fmt : string) (quality : Z) : SavedFile :=
  if String.eqb (lower fmt) "png"
  then {| path := out_path; enc := PNG; content := im |}
  else {| path := out_path; enc := JPEG quality 0 false;
          content := convert R im "RGB" |}.

Definition tile_box (W H tile_size ix iy : Z) : Z * Z * Z * Z :=
  let x0 := ix * tile_size in
  let y0 := iy * tile_size in
  let x1 := Z.min (x0 + tile_size) W in
  let y1 := Z.min (y0 + tile_size) H in
  (x0, y0, x1, y1)%Z.

Definition tile_name (base_name fmt : string) (ix iy : Z) : string :=
  (base_name ++ "_x" ++ format_02d ix ++ "_y" ++ format_02d iy ++ "." ++ lower fmt)%string.

(** The files written, in order; [os.makedirs] creates [out_dir]. *)
Definition export_tiles (im : Image) (tile_size : Z) (out_dir base_name fmt : string)
  (quality : Z) : result (list SavedFile) :=
  let '(W, H) := size im in
  tx <- ceil_div W tile_size;;
  ty <- ceil_div H tile_size;;
  for_each (range 0 ty)
    (fun files iy =>
       for_each (range 0 tx)
         (fun files ix =>
            let tile := crop im (tile_box W H tile_size ix iy) in
            let tile_path := path_join out_dir (tile_name base_name fmt ix iy) in
            Ok (files ++ [save_image tile tile_path fmt quality]))
         files)
    [].

(** *** Main processing *)

Record Args : Type := {
  assets_dir : string;
  font : string;
  out : string;
  format : string;
  quality : Z;
  scale : float;
  tile_size : Z;
  nation_borders : bool;
  spline_samples : Z;
  aa_scale : Z
}.

(** A JSON number. *)
Inductive num : Type :=
| Int (z : Z)
| Float (f : float).

(** [float(n)] *)
Definition float_of_num (n : num) : result float :=
  match n with
  | Int z => float_of_int z
  | Float f => Ok f
  end.

(** [n + k] for an [int] [k] *)
Definition num_add_int (n : num) (k : Z) : result num :=
  match n with
  | Int z => Ok (Int (z + k))
  | Float f => fk <- float_of_int k;; Ok (Float (f + fk)%float)
  end.

(** [f * k] for an [int] [k] *)
Definition mul_int (f : float) (k : Z) : result float :=
  fk <- float_of_int k;; Ok (f * fk)%float.

(** The entries of [poi.json]; a key that is absent is [None]. *)
Record Poi : Type := {
  coord : option (num * num);
  label : option string
}.

Record Nation : Type := {
  border : option (list (num * num));
  color : option string
}.

Record Data : Type := {
  portal_stones : option (list Poi);
  steddings : option (list Poi);
  rivers : option (list Poi);
  nations : option (list Nation)
}.

(** The files the tool loads: the map with the resolution its metadata
    gives, if any, the two icons and the dataset. *)
Record Assets : Type := {
  base : Image;
  base_dpi : option float;
  portal_icon : Image;
  stedding_icon : Image;
  data : Data
}.

(** [d.get(key, default)] *)
Definition get {A : Type} (field : option A) (default : A) : A :=
  match field with
  | Some a => a
  | None => default
  end.

(** [d[key]] *)
Definition getitem {A : Type} (field : option A) : result A :=
  match field with
  | Some a => Ok a
  | None => Err KeyError
  end.

Definition DARK_GREEN : rgb := (0, 100, 0)%Z.
Definition BLUE : rgb := (0, 90, 200)%Z.
Definition WHITE : rgb := (255, 255, 255)%Z.

(** The points of one border in the supersampled layer. *)
Definition scale_points (AA : Z) (border : list (num * num)) : result (list point) :=
  for_each border
    (fun pts p =>
       let '(px, py) := p in
       let scale := 1%Z in
       fx <- float_of_num px;;
       sx <- mul_int fx scale;;
       ax <- mul_int sx AA;;
       fy <- float_of_num py;;
       sy <- mul_int fy scale;;
       ay <- mul_int sy AA;;
       Ok (pts ++ [(ax, ay)]))
    [].

(** The body of the loop over [nations]. *)
Definition draw_nation (a : Args) (AA : Z) (layer : Image) (entry : Nation)
  : result Image :=
  let border := get (border entry) [] in
  if (len border <? 2)%Z then Ok layer
  else
    pts <- scale_points AA border;;
    color <- parse_rgba_force_70a (get (color entry) "rgba(255,0,0,1)");;
    smooth <- catmull_rom_spline pts (Z.max 6 (spline_samples a * AA)) false;;
    Ok (draw_line R layer smooth color (5 * AA)).

(** The supersampled layer, drawn and resampled to the size of [im]. *)
Definition border_layer (a : Args) (d : Data) (im : Image) : result Image :=
  let AA := Z.max 1 (aa_scale a) in
  let '(W, H) := size im in
  let layer := new "RGBA" (W * AA, H * AA)%Z (0, 0, 0, 0)%Z in
  layer <- for_each (get (nations d) []) (draw_nation a AA) layer;;
  Ok (resize_lanczos R layer (W, H)).

(** 1) nation borders *)
Definition draw_nation_borders (a : Args) (d : Data) (im : Image) : result Image :=
  if nation_borders a
  then layer <- border_layer a d im;; Ok (alpha_composite im layer (0, 0)%Z)
  else Ok im.

(** 2) portal_stones *)
Definition draw_portal_stone (icon_portal : Image) (im : Image) (entry : Poi)
  : result Image :=
  '(x, y) <- getitem (coord entry);;
  fx <- float_of_num x;;
  fy <- float_of_num y;;
  alpha_composite_center im icon_portal (fx, fy).

(** 3) steddings *)
Definition stedding_text_xy (f : Font) (icon_h : Z) (cx cy : float) (text : string)
  : result (Z * Z) :=
  hh <- int_truediv icon_h 2;;
  r <- round (cy + hh)%float;;
  let ty := (r - 10)%Z in
  let '(l, t, r, b) := textbbox R (0, 0)%Z text f 2 in
  let '(tw, th) := ((r - l)%Z, (b - t)%Z) in
  hw <- int_truediv tw 2;;
  tx <- round (cx - hw)%float;;
  Ok (tx, ty).

Definition draw_stedding (f : Font) (icon_stedding : Image) (im : Image) (entry : Poi)
  : result Image :=
  '(x, y) <- getitem (coord entry);;
  let text := get (label entry) "" in
  cx <- float_of_num x;;
  cy <- float_of_num y;;
  im <- alpha_composite_center im icon_stedding (cx, cy);;
  xy <- stedding_text_xy f (height icon_stedding) cx cy text;;
  Ok (draw_text R im xy text f DARK_GREEN 2 WHITE).

(** 4) rivers labels *)
Definition river_text_xy (f : Font) (x y : num) (text : string) : result (Z * Z) :=
  x <- num_add_int x 50;;
  let '(l, t, r, b) := textbbox R (0, 0)%Z text f 2 in
  let '(tw, th) := ((r - l)%Z, (b - t)%Z) in
  fx <- float_of_num x;;
  hw <- int_truediv tw 2;;
  tx <- round (fx - hw)%float;;
  fy <- float_of_num y;;
  hh <- int_truediv th 2;;
  ty <- round (fy - hh)%float;;
  Ok (tx, ty).

Definition draw_river (f : Font) (im : Image) (entry : Poi) : result Image :=
  '(x, y) <- getitem (coord entry);;
  let text := get (label entry) "" in
  xy <- river_text_xy f x y text;;
  Ok (draw_text R im xy text f BLUE 2 WHITE).

(** The annotated canvas, before it is saved. *)
Definition render (a : Args) (s : Assets) : result Image :=
  let dpi := get (base_dpi s) 96%float in
  let im := ensure_rgba (base s) in
  let icon_portal := convert R (portal_icon s) "RGBA" in
  let icon_stedding := convert R (stedding_icon s) "RGBA" in
  let font_path := path_join (assets_dir a) (font a) in
  sz <- pt_to_px 14%float dpi;;
  let font_stedding := {| font_path := font_path; font_size := sz |} in
  sz <- pt_to_px 14%float dpi;;
  let font_river := {| font_path := font_path; font_size := sz |} in
  im <- draw_nation_borders a (data s) im;;
  im <- for_each (get (portal_stones (data s)) []) (draw_portal_stone icon_portal) im;;
  im <- for_each (get (steddings (data s)) []) (draw_stedding font_stedding icon_stedding) im;;
  for_each (get (rivers (data s)) []) (draw_river font_river) im.

(** The files written and the lines printed. *)
Definition main (a : Args) (s : Assets) : result (list SavedFile * list string) :=
  im <- render a s;;
  let out_base := out a in
  let out_ext := lower (format a) in
  let out_path := (out_base ++ "." ++ out_ext)%string in
  let saved := save_image im out_path (format a) (quality a) in
  let line1 := ("[OK] Saved: " ++ out_path ++ " (" ++ str_of_nonneg (width im)
                ++ "x" ++ str_of_nonneg (height im) ++ ")")%string in
  if (0 <? tile_size a)%Z
  then
    let tiles_dir := (out_base ++ "_tiles_" ++ str_of_nonneg (tile_size a))%string in
    tiles <- export_tiles im (tile_size a) tiles_dir out_base (format a) (quality a);;
    Ok (saved :: tiles, [line1; ("[OK] Exported tiles to: " ++ tiles_dir)%string])
  else Ok ([saved], [line1]).

End WithRaster.

End Overlap.

(** ** Notions used in the statements *)

Module Binary64.

(** The number of binary digits of [m]. *)
Definition D (m : Z) : Z := Zdigits2 m.





End Binary64.

Module SplineSpec.

Import Py Overlap.






End SplineSpec.

Module ColorSpec.

Import Py Pillow.









End ColorSpec.

Module Examples.

Import Py Pillow Overlap.

(** A rasteriser that paints nothing and measures every label as the box
    [(0, 4, 80, 20)], for the worked examples. *)
Definition blank_raster : Raster :=
  {| line_px := fun im _ _ _ => getpixel im;
     text_px := fun im _ _ _ _ _ _ => getpixel im;
     lanczos_px := fun im _ => getpixel im;
     convert_px := fun _ _ c => c;
     getbbox := fun _ _ _ => (0, 4, 80, 20) |}.

Definition blank (m : string) (w h : Z) : Image :=
  {| mode := m; width := w; height := h; getpixel := fun _ _ => (0, 0, 0, 255) |}.

Definition no_data : Data :=
  {| portal_stones := None; steddings := None; rivers := None; nations := None |}.

Definition assets_200 : Assets :=
  {| base := blank "RGB" 200 200; base_dpi := None;
     portal_icon := blank "RGBA" 16 16; stedding_icon := blank "RGBA" 16 16;
     data := no_data |}.

(** The defaults of the command line, with [--scale 0.5]. *)
Definition args_half : Args :=
  {| assets_dir := "."; font := "HyliaSerifBeta-Regular.otf"; out := "map_annotated";
     format := "jpg"; quality := 90; scale := 0.5%float; tile_size := 0;
     nation_borders := false; spline_samples := 10; aa_scale := 1 |}.

(** The defaults of the command line, with the borders on. *)
Definition args_borders : Args :=
  {| assets_dir := "."; font := "HyliaSerifBeta-Regular.otf"; out := "map_annotated";
     format := "jpg"; quality := 90; scale := 1%float; tile_size := 0;
     nation_borders := true; spline_samples := 10; aa_scale := 1 |}.

Definition font_19 : Font := {| font_path := "font.otf"; font_size := 19 |}.

End Examples.

Module StageSpec.

Import Py Pillow Overlap.

Definition alpha_of (c : rgba) : Z := let '(_, _, _, a) := c in a.

(** Twice the centre of a box, which is a pair of integers. *)
Definition twice_center (box : Z * Z * Z * Z) : Z * Z :=
  let '(l, t, r, b) := box in (l + r, t + b).


End StageSpec.

Module TileSpec.

Import Py Pillow Overlap.







Section WithRaster.

Variable R : Raster.



End WithRaster.

End TileSpec.

(*PROPERTIES*)
(** ** binary64 arithmetic *)

Module Binary64Facts.

Import Binary64.
Import Py.

Lemma digits2_pos_size p : digits2_pos p = Pos.size p.
Proof. induction p; simpl; congruence. Qed.

Lemma Zdigits2_log2 m : 0 < m -> Zdigits2 m = Z.log2 m + 1.
Proof.
  destruct m as [|p|p]; try lia. intros _. simpl. rewrite digits2_pos_size.
  destruct p; simpl; lia.
Qed.

Lemma shr_1_m mrs : 0 <= shr_m mrs -> shr_m (shr_1 mrs) = Z.div2 (shr_m mrs).
Proof.
  destruct mrs as [m r s]. simpl. destruct m as [|[p|p|]|p]; simpl; try reflexivity; lia.
Qed.

Lemma shr_1_nonneg mrs : 0 <= shr_m mrs -> 0 <= shr_m (shr_1 mrs).
Proof. intros H. rewrite shr_1_m by assumption. rewrite Z.div2_div. apply Z.div_pos; lia. Qed.

Lemma iter_pos_shr_m p : forall mrs, 0 <= shr_m mrs ->
  shr_m (iter_pos shr_1 p mrs) = Z.shiftr (shr_m mrs) (Z.pos p)
  /\ 0 <= shr_m (iter_pos shr_1 p mrs).
Proof.
  induction p as [p IH|p IH|]; intros mrs H; simpl.
  - pose proof (shr_1_nonneg mrs H) as H1.
    destruct (IH _ H1) as [E1 N1]. destruct (IH _ N1) as [E2 N2].
    split; [|assumption]. rewrite E2, E1, shr_1_m by assumption.
    rewrite Z.div2_spec, !Z.shiftr_shiftr by lia. f_equal. lia.
  - destruct (IH _ H) as [E1 N1]. destruct (IH _ N1) as [E2 N2].
    split; [|assumption]. rewrite E2, E1, !Z.shiftr_shiftr by lia. f_equal. lia.
  - split; [|apply shr_1_nonneg; assumption]. rewrite shr_1_m by assumption. apply Z.div2_spec.
Qed.


Lemma fexp_eq x : fexp prec emax x = Z.max (x - 53) (-1074).
Proof. reflexivity. Qed.

Lemma shr_spec mrs e n : 0 <= shr_m mrs ->
  exists mrs', shr mrs e n = (mrs', e + Z.max 0 n)
    /\ shr_m mrs' = Z.shiftr (shr_m mrs) (Z.max 0 n) /\ 0 <= shr_m mrs'.
Proof.
  intros H. destruct n as [|p|p]; simpl.
  - exists mrs. rewrite Z.add_0_r, Z.shiftr_0_r. auto.
  - destruct (iter_pos_shr_m p mrs H) as [E N].
    eexists; split; [reflexivity|]. split; [|assumption].
    rewrite E. f_equal.
  - exists mrs. rewrite Z.add_0_r, Z.shiftr_0_r. auto.
Qed.

Lemma shr_fexp_spec m e l : 0 <= m ->
  exists mrs, shr_fexp prec emax m e l = (mrs, e + Z.max 0 (fexp prec emax (D m + e) - e))
    /\ shr_m mrs = Z.shiftr m (Z.max 0 (fexp prec emax (D m + e) - e)) /\ 0 <= shr_m mrs.
Proof.
  intros H. unfold shr_fexp.
  assert (Hm : shr_m (shr_record_of_loc m l) = m) by (destruct l as [|[]]; reflexivity).
  destruct (shr_spec (shr_record_of_loc m l) e (fexp prec emax (Zdigits2 m + e) - e)) as (mrs & E & M & N).
  { rewrite Hm; assumption. }
  exists mrs. rewrite Hm in M. auto.
Qed.

Lemma round_nearest_even_range m l : 0 <= m ->
  m <= round_nearest_even m l <= m + 1.
Proof. intros H. destruct l as [|[]]; simpl; try lia. destruct (Z.even m); lia. Qed.

Lemma D_pos m : 0 < m -> D m = Z.log2 m + 1.
Proof. apply Zdigits2_log2. Qed.
Lemma D_0 : D 0 = 0. Proof. reflexivity. Qed.
Lemma D_nonneg m : 0 <= m -> 0 <= D m.
Proof. intros H. destruct (Z.eq_dec m 0) as [->|]. - rewrite D_0; lia. - rewrite D_pos by lia. pose proof (Z.log2_nonneg m). lia. Qed.

Lemma shiftr_pos m n : 0 < m -> 0 <= n -> n <= Z.log2 m -> 0 < Z.shiftr m n.
Proof.
  intros Hm Hn Hl. 
  assert (Z.log2 (Z.shiftr m n) = Z.max 0 (Z.log2 m - n)) by (apply Z.log2_shiftr; lia).
  destruct (Z.eq_dec (Z.shiftr m n) 0) as [E|NE].
  - apply Z.shiftr_eq_0_iff in E. destruct E as [E|[_ E]]; lia.
  - pose proof (Z.shiftr_nonneg m n). lia.
Qed.

Lemma D_shiftr m n : 0 < m -> 0 <= n -> n <= Z.log2 m -> D (Z.shiftr m n) = D m - n.
Proof.
  intros Hm Hn Hl. pose proof (shiftr_pos m n Hm Hn Hl).
  rewrite !D_pos by lia. rewrite Z.log2_shiftr by lia. lia.
Qed.

Lemma shiftr_small m n : 0 <= m -> 0 <= n -> Z.log2 m < n -> Z.shiftr m n = 0.
Proof. intros. apply Z.shiftr_eq_0; lia. Qed.

Lemma D_succ m : 0 <= m -> D (m + 1) <= D m + 1.
Proof.
  intros H. destruct (Z.eq_dec m 0) as [->|]. - reflexivity.
  - rewrite !D_pos by lia. pose proof (Z.log2_succ_le m). unfold Z.succ in *. lia.
Qed.

Lemma D_mono a b : 0 <= a <= b -> D a <= D b.
Proof.
  intros [Ha Hb]. destruct (Z.eq_dec a 0) as [->|]. 
  - rewrite D_0. apply D_nonneg; lia.
  - rewrite !D_pos by lia. pose proof (Z.log2_le_mono a b Hb). lia.
Qed.

Lemma binary_round_aux_bounded s m e :
  0 < m -> e <= 971 -> D m + e <= 1023 ->
  match binary_round_aux prec emax s m e loc_Exact with
  | S754_zero s' => s' = s /\ Z.log2 m < fexp prec emax (D m + e) - e
  | S754_finite s' m' e' => s' = s /\ D (Z.pos m') + e' <= Z.max (D m + e + 1) (-1073)
  | _ => False
  end.
Proof.
  intros Hm He Hd. unfold binary_round_aux.
  destruct (shr_fexp_spec m e loc_Exact) as (mrs1 & E1 & M1 & N1); [lia|].
  rewrite E1.
  set (n1 := Z.max 0 (fexp prec emax (D m + e) - e)) in *.
  set (m2 := round_nearest_even (shr_m mrs1) (loc_of_shr_record mrs1)).
  pose proof (round_nearest_even_range (shr_m mrs1) (loc_of_shr_record mrs1) N1) as R2.
  fold m2 in R2. clearbody m2.
  destruct (shr_fexp_spec m2 (e + n1) loc_Exact) as (mrs3 & E3 & M3 & N3); [lia|].
  rewrite E3.
  set (n2 := Z.max 0 (fexp prec emax (D m2 + (e + n1)) - (e + n1))) in *.
  assert (HD2 : D m2 + (e + n1) <= Z.max (D m + e + 1) (-1073)).
  { destruct (Z_le_gt_dec n1 (Z.log2 m)) as [Hle|Hgt].
    - assert (D (shr_m mrs1) = D m - n1) by (rewrite M1; apply D_shiftr; unfold n1; lia).
      assert (Hmono : D m2 <= D (shr_m mrs1 + 1)) by (apply D_mono; lia).
      pose proof (D_succ (shr_m mrs1) N1). clearbody n1 n2. lia.
    - assert (shr_m mrs1 = 0) by (rewrite M1; apply shiftr_small; unfold n1; lia).
      assert (D m2 <= 1). { pose proof (D_mono m2 1). change (D 1) with 1 in *. lia. }
      pose proof (D_pos m Hm).
      pose proof (Z.log2_nonneg m).
      unfold n1 in *. rewrite fexp_eq in *. lia. }
  assert (He3 : e + n1 + n2 <= 971).
  { pose proof (D_nonneg m2). unfold n2, n1 in *. rewrite !fexp_eq in *. lia. }
  destruct (shr_m mrs3) as [|p|p] eqn:Ep; [split; [reflexivity|] | |lia].
  { destruct (Z_le_gt_dec n1 (Z.log2 m)) as [Hle|Hgt]; [exfalso|pose proof (Z.log2_nonneg m); unfold n1 in Hgt; lia].
    assert (Hp1 : 0 < shr_m mrs1) by (rewrite M1; apply shiftr_pos; unfold n1; lia).
    assert (HD1 : D (shr_m mrs1) = D m - n1) by (rewrite M1; apply D_shiftr; unfold n1; lia).
    assert (Hmono : D m2 <= D (shr_m mrs1 + 1)) by (apply D_mono; lia).
    assert (Hmono' : D (shr_m mrs1) <= D m2) by (apply D_mono; lia).
    pose proof (D_succ (shr_m mrs1) N1) as Hs.
    assert (Hp3 : 0 < Z.shiftr m2 n2).
    { apply shiftr_pos; [lia|unfold n2; lia|].
      pose proof (D_pos m2 ltac:(lia)) as E2. pose proof (D_pos m Hm) as E0.
      pose proof (D_pos _ Hp1) as E1'.
      pose proof (Z.log2_nonneg (shr_m mrs1)).
      assert (Hcase : D m2 = D (shr_m mrs1) \/ D m2 = D (shr_m mrs1) + 1) by lia.
      destruct Hcase as [Hc|Hc].
      - unfold n2, n1 in *. rewrite !fexp_eq in *. lia.
      - assert (2 <= m2).
        { destruct (Z.eq_dec m2 1) as [->|]; [|lia]. change (D 1) with 1 in *. lia. }
        assert (1 <= Z.log2 m2) by (apply Z.log2_le_pow2; simpl; lia).
        unfold n2, n1 in *. rewrite !fexp_eq in *. lia. }
    lia. }
  replace (e + n1 + n2 <=? emax - prec) with true
    by (symmetry; apply Z.leb_le; unfold emax, prec; lia).
  split; [reflexivity|].
  assert (Hm2 : 0 < m2).
  { destruct (Z.eq_dec m2 0) as [Z0|]; [|lia]. rewrite Z0, Z.shiftr_0_l in M3. lia. }
  destruct (Z_le_gt_dec n2 (Z.log2 m2)) as [Hle|Hgt].
  - assert (D (Z.pos p) = D m2 - n2) by (rewrite M3; apply D_shiftr; unfold n2; lia).
    clearbody n1 n2. lia.
  - rewrite shiftr_small in M3 by (unfold n2; lia). lia.
Qed.




Lemma D_mul_pow2 q k : 0 < q -> 0 <= k -> D (q * 2 ^ k) = D q + k.
Proof.
  intros Hq Hk. assert (0 < q * 2 ^ k) by (apply Z.mul_pos_pos; [lia|apply Z.pow_pos_nonneg; lia]).
  rewrite !D_pos by lia. rewrite Z.log2_mul_pow2 by lia. lia.
Qed.


Lemma pos_iter_xO m d : Z.pos (Pos.iter xO m d) = Z.pos m * 2 ^ Z.pos d.
Proof.
  revert m. induction d using Pos.peano_ind; intros m.
  - simpl. lia.
  - rewrite Pos.iter_succ, Pos2Z.inj_succ, Z.pow_succ_r by lia.
    rewrite Pos2Z.inj_xO, IHd. lia.
Qed.

Lemma shl_align_spec mx ex ex' :
  exists mz, shl_align mx ex ex' = (mz, Z.min ex ex')
    /\ Z.pos mz = Z.pos mx * 2 ^ (ex - Z.min ex ex').
Proof.
  unfold shl_align. destruct (ex' - ex) as [|d|d] eqn:E.
  - exists mx. replace (Z.min ex ex') with ex by lia. rewrite Z.sub_diag. split; [reflexivity|lia].
  - exists mx. replace (Z.min ex ex') with ex by lia. rewrite Z.sub_diag. split; [reflexivity|lia].
  - exists (Pos.iter xO mx d). replace (Z.min ex ex') with ex' by lia.
    split; [reflexivity|]. rewrite pos_iter_xO. f_equal. f_equal. lia.
Qed.






Local Open Scope float_scope.




Lemma D_le_of_lt_pow a b : (0 <= a < 2 ^ b -> 0 <= b -> D a <= b)%Z.
Proof.
  intros [Ha Hlt] Hb. destruct (Z.eq_dec a 0) as [->|]; [rewrite D_0; lia|].
  rewrite D_pos by lia. apply Z.log2_lt_pow2 in Hlt; lia.
Qed.











Lemma Prim2SF_float_of_Z z : (0 <= z < 2 ^ 63)%Z ->
  Prim2SF (float_of_Z z) = binary_normalize prec emax z 0 false.
Proof.
  intros Hz. unfold float_of_Z.
  assert (E : binary_normalize prec emax z 0 false = Prim2SF (of_uint63 (Uint63.of_Z z))).
  { rewrite FloatAxioms.of_uint63_spec. rewrite Uint63.of_Z_spec.
    rewrite Z.mod_small; [reflexivity|]. exact Hz. }
  rewrite E, SF2Prim_Prim2SF. reflexivity.
Qed.

Lemma float_of_Z_pos z : (1 <= z < 2 ^ 63)%Z ->
  exists m e, Prim2SF (float_of_Z z) = S754_finite false m e.
Proof.
  intros Hz. rewrite Prim2SF_float_of_Z by lia.
  destruct z as [|p|p]; try lia. simpl binary_normalize. unfold binary_round.
  destruct (shl_align_spec p 0 (fexp prec emax (Z.pos (digits2_pos p) + 0))) as (mz & E & M).
  rewrite E. change (Z.pos (digits2_pos p)) with (D (Z.pos p)) in *.
  rewrite fexp_eq in *.
  set (ez := Z.min 0 (Z.max (D (Z.pos p) + 0 - 53) (-1074))) in *.
  assert (HD : (D (Z.pos p) <= 63)%Z) by (apply D_le_of_lt_pow; lia).
  assert (Hd1 : (1 <= D (Z.pos p))%Z) by (rewrite D_pos by lia; pose proof (Z.log2_nonneg (Z.pos p)); lia).
  assert (HDz : D (Z.pos mz) = (D (Z.pos p) + (0 - ez))%Z).
  { rewrite M. apply D_mul_pow2; unfold ez; lia. }
  pose proof (binary_round_aux_bounded false (Z.pos mz) ez ltac:(lia) ltac:(unfold ez; lia)
                ltac:(unfold ez in *; lia)) as R.
  destruct (binary_round_aux prec emax false (Z.pos mz) ez loc_Exact) as [s|s| |s m e];
    try contradiction.
  - exfalso. destruct R as [_ R]. rewrite fexp_eq in R.
    pose proof (D_pos (Z.pos mz) ltac:(lia)). unfold ez in *. lia.
  - destruct R as [-> _]. eauto.
Qed.

Lemma float_of_Z_0 : float_of_Z 0 = 0.
Proof. reflexivity. Qed.













End Binary64Facts.

(** ** Loops and indexing *)

Module PyFacts.

Import Py.

Lemma bind_ok {A B : Type} (r : result A) (k : A -> result B) (b : B) :
  bind r k = Ok b -> exists a, r = Ok a /\ k a = Ok b.
Proof. destruct r as [a|e]; simpl; intros H; [eauto|discriminate]. Qed.


Lemma for_each_invariant {A S : Type} (P : S -> Prop) (xs : list A)
  (body : S -> A -> result S) :
  (forall acc x acc', In x xs -> P acc -> body acc x = Ok acc' -> P acc') ->
  forall acc acc', P acc -> for_each xs body acc = Ok acc' -> P acc'.
Proof.
  induction xs as [|x xs IH]; intros Hb acc acc' HP H; simpl in H.
  - inversion H; subst; assumption.
  - apply bind_ok in H. destruct H as (a & E & H).
    apply (IH (fun acc x acc' Hin => Hb acc x acc' (or_intror Hin)) a acc'); [|assumption].
    apply (Hb acc x a); [left; reflexivity|assumption|assumption].
Qed.

Lemma range_length lo hi : List.length (range lo hi) = Z.to_nat (hi - lo).
Proof. unfold range. rewrite length_map, length_seq. reflexivity. Qed.



Lemma range_empty lo hi : hi <= lo -> range lo hi = [].
Proof. intros H. unfold range. replace (Z.to_nat (hi - lo)) with 0%nat by lia. reflexivity. Qed.




End PyFacts.

(** ** The spline interpolator *)

Module SplineFacts.

Import Py Overlap Binary64 Binary64Facts PyFacts SplineSpec.

Lemma float_of_int_ok z : 0 <= z < 2 ^ 63 -> float_of_int z = Ok (float_of_Z z).
Proof.
  intros H. unfold float_of_int, is_finite.
  destruct (Z.eq_dec z 0) as [->|Hz]; [reflexivity|].
  destruct (float_of_Z_pos z ltac:(lia)) as (m & e & E). rewrite E. reflexivity.
Qed.











End SplineFacts.

Module SplineEndpoints.

Import Py Overlap Binary64 Binary64Facts PyFacts SplineSpec SplineFacts.












End SplineEndpoints.

Module SplineClaims.

Import Py Overlap Binary64 Binary64Facts PyFacts SplineSpec SplineFacts SplineEndpoints.






End SplineClaims.

(** ** The colour parser *)

Module ColorFacts.

Import Py Pillow Overlap ColorSpec.











Lemma punct_not_class :
  is_digit "," = false /\ is_digit ")" = false /\ is_space "," = false.
Proof. repeat split. Qed.


End ColorFacts.

Module ColorMatch.

Import Py Pillow Overlap ColorSpec ColorFacts.



















End ColorMatch.

Module ColorParse.

Import Py Pillow Overlap ColorSpec ColorFacts ColorMatch.













End ColorParse.

Module ColorClaims.

Import Py Pillow Overlap ColorSpec ColorFacts ColorMatch ColorParse.







End ColorClaims.

(** ** The stages of the pipeline *)

Module StageFacts.

Import Py Pillow Overlap PyFacts SplineFacts.

Section WithRaster.

Variable R : Raster.

Lemma int_truediv_2 w : 0 <= w < 2 ^ 63 ->
  int_truediv w 2 = Ok (float_of_Z w / 2)%float.
Proof.
  intros H. unfold int_truediv. cbn [Z.eqb].
  rewrite float_of_int_ok by assumption. reflexivity.
Qed.

Lemma size_alpha_composite im src dest : size (alpha_composite im src dest) = size im.
Proof. destruct dest. reflexivity. Qed.

Lemma size_alpha_composite_center base icon c im' :
  alpha_composite_center base icon c = Ok im' -> size im' = size base.
Proof.
  unfold alpha_composite_center. destruct c as [x y]. cbn [size].
  intros H. repeat (apply bind_ok in H; destruct H as (? & _ & H)).
  inversion H; subst. reflexivity.
Qed.

Lemma size_ensure_rgba im : size (ensure_rgba R im) = size im.
Proof. unfold ensure_rgba. destruct (String.eqb (mode im) "RGBA"); reflexivity. Qed.

Lemma size_save_image im p fmt q : size (content (save_image R im p fmt q)) = size im.
Proof. unfold save_image. destruct (String.eqb (lower fmt) "png"); reflexivity. Qed.

Lemma size_draw_nation_borders a d im im' :
  draw_nation_borders R a d im = Ok im' -> size im' = size im.
Proof.
  unfold draw_nation_borders. destruct (nation_borders a).
  - intros H. apply bind_ok in H. destruct H as (layer & _ & H).
    inversion H; subst. reflexivity.
  - intros H. inversion H; subst. reflexivity.
Qed.

Lemma size_draw_portal_stone icon im entry im' :
  draw_portal_stone icon im entry = Ok im' -> size im' = size im.
Proof.
  unfold draw_portal_stone. intros H.
  apply bind_ok in H. destruct H as ([x y] & _ & H).
  apply bind_ok in H. destruct H as (fx & _ & H).
  apply bind_ok in H. destruct H as (fy & _ & H).
  apply size_alpha_composite_center in H. exact H.
Qed.

Lemma size_draw_stedding f icon im entry im' :
  draw_stedding R f icon im entry = Ok im' -> size im' = size im.
Proof.
  unfold draw_stedding. intros H.
  apply bind_ok in H. destruct H as ([x y] & _ & H).
  apply bind_ok in H. destruct H as (cx & _ & H).
  apply bind_ok in H. destruct H as (cy & _ & H).
  apply bind_ok in H. destruct H as (im1 & E & H).
  apply bind_ok in H. destruct H as (xy & _ & H).
  inversion H; subst. apply size_alpha_composite_center in E. exact E.
Qed.

Lemma size_draw_river f im entry im' :
  draw_river R f im entry = Ok im' -> size im' = size im.
Proof.
  unfold draw_river. intros H.
  apply bind_ok in H. destruct H as ([x y] & _ & H).
  apply bind_ok in H. destruct H as (xy & _ & H).
  inversion H; subst. reflexivity.
Qed.

Lemma size_for_each {A : Type} (body : Image -> A -> result Image) (xs : list A) :
  (forall im x im', body im x = Ok im' -> size im' = size im) ->
  forall im im', for_each xs body im = Ok im' -> size im' = size im.
Proof.
  intros Hb im im' H.
  apply (for_each_invariant (fun i => size i = size im) xs body) with (acc := im); auto.
  intros acc x acc' _ HP E. rewrite (Hb _ _ _ E). exact HP.
Qed.

(** No stage changes the size of the canvas. *)
Lemma size_render a s im :
  render R a s = Ok im -> size im = size (base s).
Proof.
  unfold render. intros H.
  apply bind_ok in H. destruct H as (sz1 & _ & H).
  apply bind_ok in H. destruct H as (sz2 & _ & H).
  apply bind_ok in H. destruct H as (im1 & E1 & H).
  apply bind_ok in H. destruct H as (im2 & E2 & H).
  apply bind_ok in H. destruct H as (im3 & E3 & H).
  apply size_for_each in H; [|apply size_draw_river].
  apply size_for_each in E3; [|apply size_draw_stedding].
  apply size_for_each in E2; [|apply size_draw_portal_stone].
  apply size_draw_nation_borders in E1.
  rewrite H, E3, E2, E1. apply size_ensure_rgba.
Qed.

End WithRaster.

End StageFacts.

(** ** Properties of the stages *)

Module StageClaims.

Import Py Pillow Overlap PyFacts SplineFacts StageFacts StageSpec ColorSpec ColorParse Examples.

(** C2, on the code.  The image that is saved has the size of the base
    image, for every [--scale]: the option is parsed and never used. *)
Theorem saved_size_is_base_size (R : Raster) (a : Args) (s : Assets)
  (files : list SavedFile) (lines : list string) :
  main R a s = Ok (files, lines) ->
  exists f rest, files = f :: rest /\ size (content f) = size (base s).
Proof.
  unfold main. intros H. apply bind_ok in H. destruct H as (im & E & H).
  apply size_render in E.
  destruct (0 <? tile_size a).
  - apply bind_ok in H. destruct H as (tiles & _ & H). inversion H; subst.
    eexists. eexists. split; [reflexivity|]. rewrite size_save_image. exact E.
  - inversion H; subst.
    eexists. eexists. split; [reflexivity|]. rewrite size_save_image. exact E.
Qed.

Lemma saved_size_is_base_size_witness :
  exists f rest,
    [save_image blank_raster (ensure_rgba blank_raster (base assets_200))
       "map_annotated.jpg" "jpg" 90] = f :: rest
    /\ size (content f) = size (base assets_200).
Proof.
  apply (saved_size_is_base_size blank_raster args_half assets_200 _
           ["[OK] Saved: map_annotated.jpg (200x200)"]).
  vm_compute. reflexivity.
Defined.

(** C6, on the code, at a label whose measured box does not start at the
    drawing origin: the river at (100, 100) has its text drawn at
    (110, 92), where its box is (110, 96)-(190, 112), centred at
    (150, 104) and not at (150, 100). *)
Theorem river_label_off_center :
  river_text_xy blank_raster font_19 (Int 100) (Int 100) "Brandywine" = Ok (110, 92)
  /\ textbbox blank_raster (110, 92) "Brandywine" font_19 2 = (110, 96, 190, 112)
  /\ twice_center (110, 96, 190, 112) = (2 * 150, 2 * 104).
Proof. repeat split; vm_compute; reflexivity. Qed.

(** C7.  An icon of size [(w, h)] placed at [(x, y)] is composited over
    the canvas with its top-left corner at [(round(x - w/2), round(y -
    h/2))]: the pixels of the canvas under the icon are the icon's over
    the canvas's, the others stay. *)
Theorem icon_top_left (base_rgba icon_rgba : Image) (x y : float) (tlx tly : Z) :
  0 <= width icon_rgba < 2 ^ 63 -> 0 <= height icon_rgba < 2 ^ 63 ->
  round (x - float_of_Z (width icon_rgba) / 2)%float = Ok tlx ->
  round (y - float_of_Z (height icon_rgba) / 2)%float = Ok tly ->
  exists im,
    alpha_composite_center base_rgba icon_rgba (x, y) = Ok im
    /\ size im = size base_rgba
    /\ forall px py,
         getpixel im px py
         = if inside icon_rgba (px - tlx) (py - tly)
           then over (getpixel base_rgba px py) (getpixel icon_rgba (px - tlx) (py - tly))
           else getpixel base_rgba px py.
Proof.
  intros Hw Hh Ex Ey. unfold alpha_composite_center. cbn [size].
  rewrite (int_truediv_2 _ Hw), (int_truediv_2 _ Hh). cbn [bind].
  rewrite Ex. cbn [bind]. rewrite Ey. cbn [bind].
  eexists. split; [reflexivity|]. split; reflexivity.
Qed.

Lemma icon_top_left_witness :
  exists im,
    alpha_composite_center (blank "RGBA" 200 200) (blank "RGBA" 15 16) (100, 100)%float = Ok im
    /\ size im = size (blank "RGBA" 200 200)
    /\ forall px py,
         getpixel im px py
         = if inside (blank "RGBA" 15 16) (px - 92) (py - 92)
           then over (getpixel (blank "RGBA" 200 200) px py)
                     (getpixel (blank "RGBA" 15 16) (px - 92) (py - 92))
           else getpixel (blank "RGBA" 200 200) px py.
Proof.
  apply (icon_top_left (blank "RGBA" 200 200) (blank "RGBA" 15 16) 100 100 92 92).
  - split; [vm_compute; intros H; discriminate H | reflexivity].
  - split; [vm_compute; intros H; discriminate H | reflexivity].
  - vm_compute. reflexivity.
  - vm_compute. reflexivity.
Defined.

Section WithRaster.

Variable R : Raster.



End WithRaster.


(** C9.  When the resampled border layer is composited onto the canvas,
    every pixel of the canvas at which the layer's alpha is zero is left
    as it was. *)
Theorem border_composite_frame (R : Raster) (a : Args) (d : Data) (im layer : Image) :
  nation_borders a = true -> border_layer R a d im = Ok layer ->
  exists im',
    draw_nation_borders R a d im = Ok im'
    /\ forall x y, alpha_of (getpixel layer x y) = 0 -> getpixel im' x y = getpixel im x y.
Proof.
  intros Hb Hl. unfold draw_nation_borders. rewrite Hb, Hl. cbn [bind].
  eexists. split; [reflexivity|].
  intros x y Ha. cbn [alpha_composite getpixel].
  destruct (inside layer (x - 0) (y - 0)); [|reflexivity].
  replace (x - 0) with x by lia. replace (y - 0) with y by lia.
  unfold over. destruct (getpixel im x y) as [[[dr dg] db] da].
  destruct (getpixel layer x y) as [[[sr sg] sb] sa]. simpl in Ha. subst sa. reflexivity.
Qed.

Lemma border_composite_frame_witness :
  exists im',
    draw_nation_borders blank_raster args_borders no_data (blank "RGBA" 4 4) = Ok im'
    /\ forall x y,
         alpha_of (getpixel (resize_lanczos blank_raster (new "RGBA" (4, 4) (0, 0, 0, 0)) (4, 4)) x y) = 0 ->
         getpixel im' x y = getpixel (blank "RGBA" 4 4) x y.
Proof.
  apply (border_composite_frame blank_raster args_borders no_data (blank "RGBA" 4 4)
           (resize_lanczos blank_raster (new "RGBA" (4, 4) (0, 0, 0, 0)) (4, 4))).
  - reflexivity.
  - reflexivity.
Defined.

End StageClaims.

(** ** Tiling *)

Module TileFacts.

Import Py Pillow Overlap PyFacts TileSpec.


Lemma len_range lo hi : lo <= hi -> len (range lo hi) = hi - lo.
Proof. intros H. unfold len. rewrite range_length. lia. Qed.




Section WithRaster.

Variable R : Raster.


End WithRaster.







End TileFacts.

Module TileClaims.

Import Py Pillow Overlap PyFacts TileSpec TileFacts Examples.

Section WithRaster.

Variable R : Raster.




End WithRaster.


End TileClaims.
